(** * The flat-file content store of the portfolio backend

    A shallow embedding of the Express servers of this repository: the full
    server ([src/unnamed/part_000]: posts and projects with list, create,
    update and delete, inline images and media clean-up), the reduced
    deployment variant ([src/unnamed/part_001]) and the minimal variant
    (the first program of [src/index.js]).

    Handlers are functions in a state-and-exception monad over a [world]
    that holds the file system, the wall clock and the console; an [await]
    is a bind, a [try]/[catch] is [try_catch].  Requests are served one
    after the other: the interleaving of two handlers at their [await]s is
    not modelled.

    - A JSON file holds an array of objects ([Json]); every other file is
      its bytes ([Raw]) and does not parse.  Numbers are integers.
    - A string is the UTF-8 encoding of a well-formed JavaScript string.
    - A path is the list of its segments.  [path.join] keeps a separator at
      the end of its last argument, which then names a directory only; a
      list of segments cannot say so, and what is stated about the file a
      media reference names takes a reference that does not end with a
      separator ([names_a_file]).
    - Directories are nodes of the file system, so that a write below a
      missing directory fails and a removal takes a whole subtree.
    - Storage failures come from the world: a path in [denied] can be
      neither written nor removed.
    - What the JavaScript runtime and its libraries provide (the directory
      of the script, [Date.prototype.toISOString], base64 decoding) is a
      parameter of the development, see [Runtime]. *)

From Stdlib Require Import Ascii.
From stdpp Require Import gmap strings list fin_maps pretty.

Set Warnings "-register-all".

Local Open Scope Z_scope.

(** ** JavaScript values

    JSON values as [express.json()] and [fs.readJson] produce them.  Numbers
    are the integers ([Date.now()] readings and whatever integer a client
    sends); [undefined] is the absence of a value, [None] in an
    [option jsval]. *)

Inductive jsval : Type :=
  | JNull
  | JBool (b : bool)
  | JNum (n : Z)
  | JStr (s : string)
  | JArr (l : list jsval)
  | JObj (l : list (string * jsval)).

(** A stored record or a request body: a JavaScript object with string keys. *)
Abbreviation record := (gmap string jsval).

(** The result of [Number(req.params.id)]: an integer, or [None] for [NaN]
    and for every number that is not an integer (such a number is strictly
    equal to no integer). *)
Abbreviation jsnum := (option Z).

(** [!v] is [negb (truthy v)]. *)
Definition truthy (v : option jsval) : bool :=
  match v with
  | None => false
  | Some JNull => false
  | Some (JBool b) => b
  | Some (JNum n) => negb (n =? 0)
  | Some (JStr s) => negb (String.eqb s "")
  | Some (JArr _) => true
  | Some (JObj _) => true
  end.

(** [v || d] *)
Definition js_or (v : option jsval) (d : jsval) : jsval :=
  match v with
  | Some x => if truthy v then x else d
  | None => d
  end.

(** [p.id === id] for a number [id]. *)
Definition strict_eq_num (v : option jsval) (id : jsnum) : bool :=
  match v, id with
  | Some (JNum n), Some z => n =? z
  | _, _ => false
  end.

(** [String(v)], as a template literal applies it; [None] where the
    conversion raises a TypeError.  An object is converted by the first of
    its [toString] and [valueOf] that is callable and returns a primitive:
    an object read from JSON holds no function, so one with a key
    [toString] of its own hides [Object.prototype.toString] and is left
    with [valueOf], which returns the object itself, and the conversion
    raises; any other object gives [[object Object]].  An array joins the
    conversions of its elements, [null] counting as the empty string. *)
Fixpoint String_ (v : jsval) : option string :=
  match v with
  | JNull => Some "null"
  | JBool true => Some "true"
  | JBool false => Some "false"
  | JNum n => Some (pretty n)
  | JStr s => Some s
  | JArr l =>
      String.concat "," <$>
        mapM (fun x => match x with JNull => Some "" | _ => String_ x end) l
  | JObj l =>
      if bool_decide ("toString" ∈ l.*1) then None else Some "[object Object]"
  end.

Definition String_num (id : jsnum) : string :=
  match id with Some z => pretty z | None => "NaN" end.

(** The conversion to a string of a value that may be [undefined]. *)
Definition to_string (v : option jsval) : option string :=
  match v with
  | Some x => String_ x
  | None => Some "undefined"
  end.


(** ** Strings *)

(** [s.split(sep)] for a separator of one character. *)
Fixpoint split_char (c : ascii) (s : string) : list string :=
  match s with
  | EmptyString => [""]
  | String a s' =>
      if Ascii.eqb a c then "" :: split_char c s'
      else match split_char c s' with
           | x :: r => String a x :: r
           | [] => [String a ""]
           end
  end.

(** [s.split(sep)] for a non-empty separator string: the pieces between the
    occurrences of [sep], found from left to right without overlap.  [skip]
    counts the characters of a matched separator still to pass over. *)
Fixpoint js_split_from (sep : string) (skip : nat) (s : string) : list string :=
  match s with
  | EmptyString => [""]
  | String a s' =>
      match skip with
      | S k => js_split_from sep k s'
      | O =>
          if String.prefix sep s
          then "" :: js_split_from sep (String.length sep - 1)%nat s'
          else match js_split_from sep 0 s' with
               | x :: r => String a x :: r
               | [] => [String a ""]
               end
      end
  end.

Definition js_split (sep s : string) : list string := js_split_from sep 0 s.

(** [l.pop()] on the array a [split] returns (never empty). *)
Definition pop (l : list string) : string := List.last l "".

Definition startsWith (s pre : string) : bool := String.prefix pre s.

(** The number of bytes of the white-space character [s] starts with, [0]
    when it starts with none.  White space is what [\s] matches: the
    characters U+0009 to U+000D and U+0020, and, in their UTF-8 encodings,
    U+00A0, U+1680, U+2000 to U+200A, U+2028, U+2029, U+202F, U+205F, U+3000
    and U+FEFF. *)
Definition space_width (s : string) : nat :=
  match s with
  | EmptyString => 0
  | String a s1 =>
      match Ascii.N_of_ascii a with
      | 9%N | 10%N | 11%N | 12%N | 13%N | 32%N => 1
      | 194%N =>
          match s1 with
          | String b _ => if (Ascii.N_of_ascii b =? 160)%N then 2 else 0
          | EmptyString => 0
          end
      | 225%N | 226%N | 227%N | 239%N =>
          match s1 with
          | String b (String c _) =>
              match Ascii.N_of_ascii a, Ascii.N_of_ascii b, Ascii.N_of_ascii c with
              | 225%N, 154%N, 128%N => 3
              | 226%N, 128%N, n =>
                  if ((128 <=? n) && (n <=? 138) || (n =? 168) || (n =? 169)
                      || (n =? 175))%N
                  then 3 else 0
              | 226%N, 129%N, 159%N => 3
              | 227%N, 128%N, 128%N => 3
              | 239%N, 187%N, 191%N => 3
              | _, _, _ => 0
              end
          | _ => 0
          end
      | _ => 0
      end
  end.

(** [s.replace(/\s+/g, "_")]: every maximal run of white space becomes one
    underscore.  [in_run] tells that the previous character was white
    space, [skip] counts the bytes of a white-space character still to pass
    over. *)
Fixpoint replace_spaces_from (in_run : bool) (skip : nat) (s : string) : string :=
  match s with
  | EmptyString => ""
  | String a s' =>
      match skip with
      | S k => replace_spaces_from in_run k s'
      | O =>
          match space_width s with
          | O => String a (replace_spaces_from false 0 s')
          | S k =>
              if in_run then replace_spaces_from true k s'
              else String "_"%char (replace_spaces_from true k s')
          end
      end
  end.

Definition replace_spaces (s : string) : string := replace_spaces_from false 0 s.

(** busboy's [basename], which gives [file.originalname] its value: what
    follows the last slash or backslash of the file name the client sent,
    and the empty name for [.] and [..]. *)
Definition is_sep (a : ascii) : bool :=
  match Ascii.N_of_ascii a with
  | 47%N | 92%N => true
  | _ => false
  end.

Fixpoint after_last_sep (s : string) : string :=
  match s with
  | EmptyString => ""
  | String a s' =>
      if existsb is_sep (String.list_ascii_of_string s') then after_last_sep s'
      else if is_sep a then s' else s
  end.

Definition basename (s : string) : string :=
  let b := after_last_sep s in
  if decide (b = ".." ∨ b = ".") then "" else b.

(** ** Paths

    An absolute, normalised path is the list of its segments from the root. *)
Abbreviation path := (list string).

Definition enter (p : path) (seg : string) : path :=
  if decide (seg = "" ∨ seg = ".") then p
  else if decide (seg = "..") then removelast p
  else p ++ [seg].

(** [path.join(base, s)] for an absolute normalised [base]: the segments of
    [s] are appended, [.] and empty segments dropped, [..] steps up (and
    stays at the root).  A trailing separator is dropped. *)
Definition path_join (base : path) (s : string) : path :=
  foldl enter base (split_char "/"%char s).


Definition path_to_string (p : path) : string :=
  match p with
  | [] => "/"
  | _ => String.concat "" (List.map (fun seg => "/" +:+ seg) p)
  end.

(** ** The file system, the clock and the console *)

Inductive content : Type :=
  | Json (l : list record)   (* a file holding a JSON array of objects *)
  | Raw (data : string).     (* any other file, as its bytes *)

Inductive node : Type :=
  | Dir
  | File (c : content).

Inductive exn : Type :=
  | TypeError (msg : string)
  | SyntaxError (p : path)
  | SystemError (code : string) (p : path).

Inductive logline : Type :=
  | Log (s : string)
  | LogError (s : string) (e : exn).

(** [denied] holds the paths the process may not write or remove (a
    permission or a busy file): every such attempt raises.  [clock n] is the
    [n]-th reading of the wall clock in milliseconds, [ticks] counts the
    readings taken so far. *)
Record world : Type := World {
  fs : gmap path node;
  denied : gset path;
  clock : nat → Z;
  ticks : nat;
  console : list logline
}.

Definition set_fs (f : gmap path node → gmap path node) (w : world) : world :=
  {| fs := f (fs w); denied := denied w; clock := clock w; ticks := ticks w;
     console := console w |}.

(** ** The monad of handlers: state and exceptions *)

Definition M (A : Type) : Type := world → world * (exn + A).

Global Instance M_ret : MRet M := fun A (a : A) w => (w, inr a).

Global Instance M_bind : MBind M := fun A B (k : A → M B) (m : M A) w =>
  match m w with
  | (w', inr a) => k a w'
  | (w', inl e) => (w', inl e)
  end.

Definition throw {A} (e : exn) : M A := fun w => (w, inl e).

(** [try { m } catch (err) { h err }] *)
Definition try_catch {A} (m : M A) (h : exn → M A) : M A := fun w =>
  match m w with
  | (w', inl e) => h e w'
  | r => r
  end.

(** [`${v}`] for a value that may be [undefined]. *)
Definition template (v : option jsval) : M string :=
  match to_string v with
  | Some s => mret s
  | None => throw (TypeError "Cannot convert object to primitive value")
  end.

Definition console_log (s : string) : M unit := fun w =>
  ({| fs := fs w; denied := denied w; clock := clock w; ticks := ticks w;
      console := console w ++ [Log s] |}, inr tt).

Definition console_error (s : string) (e : exn) : M unit := fun w =>
  ({| fs := fs w; denied := denied w; clock := clock w; ticks := ticks w;
      console := console w ++ [LogError s e] |}, inr tt).

(** [Date.now()] *)
Definition Date_now : M Z := fun w =>
  ({| fs := fs w; denied := denied w; clock := clock w; ticks := S (ticks w);
      console := console w |}, inr (clock w (ticks w))).

(** ** fs-extra *)

Definition parent (p : path) : path := removelast p.

Definition is_dir (f : gmap path node) (p : path) : bool :=
  match p with
  | [] => true
  | _ => match f !! p with Some Dir => true | _ => false end
  end.

(** [fs.pathExists(p)] never raises. *)
Definition pathExists (p : path) : M bool := fun w =>
  (w, inr (match p with [] => true | _ => bool_decide (is_Some (fs w !! p)) end)).

(** Creating or replacing the file [p]. *)
Definition write_node (p : path) (c : content) : M unit := fun w =>
  if decide (p ∈ denied w) then (w, inl (SystemError "EACCES" p))
  else if is_dir (fs w) p then (w, inl (SystemError "EISDIR" p))
  else if negb (is_dir (fs w) (parent p)) then (w, inl (SystemError "ENOENT" p))
  else (set_fs (insert p (File c)) w, inr tt).

(** [fs.writeJson(p, l)] *)
Definition writeJson (p : path) (l : list record) : M unit :=
  write_node p (Json l).

(** [fs.readJson(p)] *)
Definition readJson (p : path) : M (list record) := fun w =>
  match fs w !! p with
  | Some (File (Json l)) => (w, inr l)
  | Some (File (Raw _)) => (w, inl (SyntaxError p))
  | Some Dir => (w, inl (SystemError "EISDIR" p))
  | None => (w, inl (SystemError (if decide (p = []) then "EISDIR" else "ENOENT") p))
  end.

(** [fs.remove(p)]: the file, or the directory with everything below it; a
    missing path is not an error. *)
Definition remove (p : path) : M unit := fun w =>
  if decide (p ∈ denied w ∧ is_Some (fs w !! p))
  then (w, inl (SystemError "EPERM" p))
  else (set_fs (filter (fun kv => ¬ p `prefix_of` kv.1)) w, inr tt).

(** [fs.ensureDirSync(p)]: [p] and the directories above it are created
    where they are missing; a file in the way is an error.  [base] is the
    part of the path already passed. *)
Fixpoint ensure_dirs (base : path) (segs : list string) (f : gmap path node)
  : option (gmap path node) :=
  match segs with
  | [] => Some f
  | seg :: segs' =>
      let d := base ++ [seg] in
      match f !! d with
      | Some (File _) => None
      | Some Dir => ensure_dirs d segs' f
      | None => ensure_dirs d segs' (<[d := Dir]> f)
      end
  end.

Definition ensureDirSync (p : path) : M unit := fun w =>
  match ensure_dirs [] p (fs w) with
  | Some f => (set_fs (fun _ => f) w, inr tt)
  | None => (w, inl (SystemError "EEXIST" p))
  end.

(** ** What the runtime provides

    [__dirname] is the directory of the script; [toISOString] renders a
    clock reading as [new Date(t).toISOString()] does; [base64_decode]
    gives the bytes Node writes for a string under [{ encoding: "base64" }]. *)
Class Runtime : Type := {
  __dirname : path;
  toISOString : Z → string;
  base64_decode : string → string
}.

(** ** Requests and responses *)

(** A file part of a multipart request: the file name of its headers, as
    busboy decodes it, and its bytes. *)
Record upload : Type := { sent_name : string; data : string }.

(** [file.originalname], as busboy hands it to multer. *)
Definition originalname (part : upload) : string := basename (sent_name part).

(** [req.file], as multer leaves it after storing the part. *)
Record multer_file : Type := { filename : string }.

Record request : Type := {
  params_id : jsnum;            (* Number(req.params.id) *)
  body : record;                (* req.body *)
  file : option multer_file     (* req.file *)
}.

Inductive payload : Type :=
  | Records (l : list record)               (* res.json(posts) *)
  | Rec (r : record)                        (* res.json(newPost) *)
  | Error (msg : string)                    (* res.json({ error }) *)
  | Deleted (msg : string) (id : jsnum)     (* res.json({ message, id }) *)
  | Message (msg : string).                 (* res.json({ message }) *)

Record response : Type := Response { status : Z; sent : payload }.

(** [l.findIndex(f)], [None] for -1. *)
Fixpoint findIndex {A} (f : A → bool) (l : list A) : option nat :=
  match l with
  | [] => None
  | x :: l' => if f x then Some O else S <$> findIndex f l'
  end.

(** The property [k: v] of an object literal; a property whose value is
    [undefined] is not serialised. *)
Definition prop (k : string) (v : option jsval) (r : record) : record :=
  match v with
  | Some x => <[k := x]> r
  | None => r
  end.

(** [v && v.startsWith(pre)]: the string [v] when the condition holds.  A
    truthy value that is not a string has no [startsWith]. *)
Definition and_startsWith (v : option jsval) (pre : string) : M (option string) :=
  if truthy v then
    match v with
    | Some (JStr s) => mret (if startsWith s pre then Some s else None)
    | _ => throw (TypeError "startsWith is not a function")
    end
  else mret None.

(** ** What a world stores *)

(** The array a JSON file holds, when [p] is such a file. *)
Definition json_at (w : world) (p : path) : option (list record) :=
  match fs w !! p with
  | Some (File (Json l)) => Some l
  | _ => None
  end.

(** The callback [(p) => p.id === id] of [find], [findIndex] and [filter]. *)
Definition has_id (id : jsnum) (p : record) : bool := strict_eq_num (p !! "id") id.

Definition ids (l : list record) : list (option jsval) := (fun r : record => r !! "id") <$> l.


(** ** What a computation may do

    [within R m P]: from whatever world [m] starts, the world it leaves is
    related to that world by [R], and a value it returns satisfies [P]. *)
Definition within {A} (R : world → world → Prop) (m : M A) (P : A → Prop) : Prop :=
  ∀ w, R w (m w).1 ∧ ∀ a, (m w).2 = inr a → P a.

(** The lines [console.error] wrote. *)
Definition is_error (l : logline) : bool :=
  match l with
  | LogError _ _ => true
  | Log _ => false
  end.

Definition errors (w : world) : nat := length (List.filter is_error (console w)).

(** From one world to the next, [console.error] wrote nothing. *)
Definition quiet (w w' : world) : Prop := errors w' = errors w.

(** From one world to the next, the console is as it was. *)
Definition silent (w w' : world) : Prop := console w' = console w.

(** From one world to the next nothing was removed, and what was written
    is at a path of [S]. *)
Definition writes_only (S : path → Prop) (w w' : world) : Prop :=
  ∀ p, (is_Some (fs w !! p) → is_Some (fs w' !! p)) ∧ (¬ S p → fs w' !! p = fs w !! p).

(** * The full server: [src/unnamed/part_000] *)
Module Full.
Section server.
Context `{!Runtime}.

Definition UPLOAD_DIR : path := path_join __dirname "uploads".

(** [multer.diskStorage({ destination, filename })] with [upload.single]:
    the part, when the request has one, is stored under [UPLOAD_DIR] before
    the handler runs. *)
Definition storage_filename (part : upload) : M string :=
  now ← Date_now;
  mret (pretty now +:+ "-" +:+ replace_spaces (originalname part)).

Definition upload_single (part : option upload) : M (option multer_file) :=
  match part with
  | None => mret None
  | Some f =>
      name ← storage_filename f;
      write_node (path_join UPLOAD_DIR name) (Raw (data f));;
      mret (Some {| filename := name |})
  end.

Definition POSTS_FILE : path := path_join __dirname "posts.json".
Definition PROJECTS_FILE : path := path_join __dirname "projects.json".

(** What the module does when it is loaded, before it serves a request. *)
Definition startup : M unit := ensureDirSync UPLOAD_DIR.

Definition loadData (filePath : path) : M (list record) :=
  present ← pathExists filePath;
  (if negb present then writeJson filePath [] else mret ());;
  readJson filePath.

(** The object literal [newPost] of [POST /posts]. *)
Definition newPost (title content type link blogLink : option jsval)
    (mediaUrl : jsval) (id createdAt : Z) : record :=
  prop "id" (Some (JNum id))
    (prop "title" title
       (prop "content" content
          (prop "type" (Some (js_or type (JStr "blog")))
             (prop "link" (Some (js_or link JNull))
                (prop "blogLink" (Some (js_or blogLink JNull))
                   (prop "media" (Some mediaUrl)
                      (prop "createdAt" (Some (JStr (toISOString createdAt)))
                         ∅))))))).

(** The object literal [newProject] of [POST /projects]. *)
Definition newProject (title link : option jsval)
    (mediaUrl : jsval) (id createdAt : Z) : record :=
  prop "id" (Some (JNum id))
    (prop "title" title
       (prop "media" (Some mediaUrl)
          (prop "link" (Some (js_or link JNull))
             (prop "createdAt" (Some (JStr (toISOString createdAt)))
                ∅)))).

(** [GET /posts] *)
Definition get_posts : M response :=
  try_catch
    (posts ← loadData POSTS_FILE;
     mret (Response 200 (Records posts)))
    (fun err =>
       console_error "❌ Error reading posts:" err;;
       mret (Response 500 (Error "Failed to read posts"))).

(** [POST /posts] *)
Definition post_posts (req : request) : M response :=
  try_catch
    (let title := body req !! "title" in
     let content := body req !! "content" in
     let type := body req !! "type" in
     let link := body req !! "link" in
     let blogLink := body req !! "blogLink" in
     let media := body req !! "media" in
     if negb (truthy title) || negb (truthy content)
     then mret (Response 400 (Error "Title and content are required"))
     else
       mediaUrl ←
         match file req with
         | Some f => mret (JStr ("/uploads/" +:+ filename f))
         | None =>
             inline ← and_startsWith media "data:image";
             match inline with
             | Some m =>
                 let base64Data := pop (js_split ";base64," m) in
                 now ← Date_now;
                 let filename := pretty now +:+ ".png" in
                 let filePath := path_join UPLOAD_DIR filename in
                 write_node filePath (Raw (base64_decode base64Data));;
                 mret (JStr ("/uploads/" +:+ filename))
             | None => mret JNull
             end
         end;
       id ← Date_now;
       createdAt ← Date_now;
       let newPost := newPost title content type link blogLink mediaUrl id createdAt in
       posts ← loadData POSTS_FILE;
       let posts := newPost :: posts in
       writeJson POSTS_FILE posts;;
       title_text ← template (newPost !! "title");
       console_log ("✅ Added new post: " +:+ title_text);;
       mret (Response 201 (Rec newPost)))
    (fun err =>
       console_error "❌ Error adding post:" err;;
       mret (Response 500 (Error "Failed to add post"))).

(** [PUT /posts/:id] *)
Definition put_posts (req : request) : M response :=
  try_catch
    (let id := params_id req in
     let updates := body req in
     posts ← loadData POSTS_FILE;
     match findIndex (fun p => strict_eq_num (p !! "id") id) posts with
     | None => mret (Response 404 (Error "Post not found"))
     | Some index =>
         now ← Date_now;
         let merged : record :=
           <["updatedAt" := JStr (toISOString now)]> (updates ∪ (posts !!! index)) in
         let posts := <[index := merged]> posts in
         writeJson POSTS_FILE posts;;
         console_log ("✏️ Updated post " +:+ String_num id);;
         mret (Response 200 (Rec (posts !!! index)))
     end)
    (fun err =>
       console_error "❌ Error updating post:" err;;
       mret (Response 500 (Error "Failed to update post"))).

(** [DELETE /posts/:id] *)
Definition delete_posts (req : request) : M response :=
  try_catch
    (let id := params_id req in
     posts ← loadData POSTS_FILE;
     let postToDelete := List.find (fun p => strict_eq_num (p !! "id") id) posts in
     let updated := List.filter (fun p => negb (strict_eq_num (p !! "id") id)) posts in
     match postToDelete with
     | None => mret (Response 404 (Error "Post not found"))
     | Some postToDelete =>
         under ← and_startsWith (postToDelete !! "media") "/uploads";
         match under return M unit with
         | Some media =>
             let filePath := path_join __dirname media in
             present ← pathExists filePath;
             (if (present : bool) then remove filePath else mret ());;
             console_log ("🗑 Removed image file: " +:+ path_to_string filePath)
         | None => mret ()
         end;;
         writeJson POSTS_FILE updated;;
         console_log ("🗑 Deleted post " +:+ String_num id);;
         mret (Response 200 (Deleted "Post deleted" id))
     end)
    (fun err =>
       console_error "❌ Error deleting post:" err;;
       mret (Response 500 (Error "Failed to delete post"))).

(** [GET /projects] *)
Definition get_projects : M response :=
  try_catch
    (projects ← loadData PROJECTS_FILE;
     mret (Response 200 (Records projects)))
    (fun err =>
       console_error "❌ Error reading projects:" err;;
       mret (Response 500 (Error "Failed to read projects"))).

(** [POST /projects] *)
Definition post_projects (req : request) : M response :=
  try_catch
    (let title := body req !! "title" in
     let link := body req !! "link" in
     let media := body req !! "media" in
     if negb (truthy title)
     then mret (Response 400 (Error "Project title is required"))
     else
       mediaUrl ←
         match file req with
         | Some f => mret (JStr ("/uploads/" +:+ filename f))
         | None =>
             inline ← and_startsWith media "data:image";
             match inline with
             | Some m =>
                 let base64Data := pop (js_split ";base64," m) in
                 now ← Date_now;
                 let filename := pretty now +:+ ".png" in
                 let filePath := path_join UPLOAD_DIR filename in
                 write_node filePath (Raw (base64_decode base64Data));;
                 mret (JStr ("/uploads/" +:+ filename))
             | None => mret JNull
             end
         end;
       id ← Date_now;
       createdAt ← Date_now;
       let newProject := newProject title link mediaUrl id createdAt in
       projects ← loadData PROJECTS_FILE;
       let projects := newProject :: projects in
       writeJson PROJECTS_FILE projects;;
       title_text ← template (newProject !! "title");
       console_log ("✅ Added new project: " +:+ title_text);;
       mret (Response 201 (Rec newProject)))
    (fun err =>
       console_error "❌ Error adding project:" err;;
       mret (Response 500 (Error "Failed to upload project"))).

(** [DELETE /projects/:id] *)
Definition delete_projects (req : request) : M response :=
  try_catch
    (let id := params_id req in
     projects ← loadData PROJECTS_FILE;
     let projectToDelete := List.find (fun p => strict_eq_num (p !! "id") id) projects in
     let updated := List.filter (fun p => negb (strict_eq_num (p !! "id") id)) projects in
     match projectToDelete with
     | None => mret (Response 404 (Error "Project not found"))
     | Some projectToDelete =>
         under ← and_startsWith (projectToDelete !! "media") "/uploads";
         match under return M unit with
         | Some media =>
             let filePath := path_join __dirname media in
             present ← pathExists filePath;
             (if (present : bool) then remove filePath else mret ());;
             console_log ("🗑 Removed project image: " +:+ path_to_string filePath)
         | None => mret ()
         end;;
         writeJson PROJECTS_FILE updated;;
         console_log ("🗑 Deleted project " +:+ String_num id);;
         mret (Response 200 (Deleted "Project deleted" id))
     end)
    (fun err =>
       console_error "❌ Error deleting project:" err;;
       mret (Response 500 (Error "Failed to delete project"))).

(** The two delete handlers are the same code up to the file and the
    wording; [delete_handler] is that code, for the proofs that hold of
    both ([delete_posts_eq], [delete_projects_eq]). *)
Record wording : Type := {
  not_found : string;
  removed_line : string;
  deleted_line : string;
  deleted_message : string;
  failed_line : string;
  failed_message : string
}.

Definition delete_handler (FILE : path) (say : wording) (req : request) : M response :=
  try_catch
    (let id := params_id req in
     items ← loadData FILE;
     let toDelete := List.find (fun p => strict_eq_num (p !! "id") id) items in
     let updated := List.filter (fun p => negb (strict_eq_num (p !! "id") id)) items in
     match toDelete with
     | None => mret (Response 404 (Error (not_found say)))
     | Some toDelete =>
         under ← and_startsWith (toDelete !! "media") "/uploads";
         match under return M unit with
         | Some media =>
             let filePath := path_join __dirname media in
             present ← pathExists filePath;
             (if (present : bool) then remove filePath else mret ());;
             console_log (removed_line say +:+ path_to_string filePath)
         | None => mret ()
         end;;
         writeJson FILE updated;;
         console_log (deleted_line say +:+ String_num id);;
         mret (Response 200 (Deleted (deleted_message say) id))
     end)
    (fun err =>
       console_error (failed_line say) err;;
       mret (Response 500 (Error (failed_message say)))).

Definition posts_wording : wording :=
  {| not_found := "Post not found";
     removed_line := "🗑 Removed image file: ";
     deleted_line := "🗑 Deleted post ";
     deleted_message := "Post deleted";
     failed_line := "❌ Error deleting post:";
     failed_message := "Failed to delete post" |}.

Definition projects_wording : wording :=
  {| not_found := "Project not found";
     removed_line := "🗑 Removed project image: ";
     deleted_line := "🗑 Deleted project ";
     deleted_message := "Project deleted";
     failed_line := "❌ Error deleting project:";
     failed_message := "Failed to delete project" |}.

(** ** The operations of the store, as the routes expose them *)

Inductive collection : Type := posts | projects.

#[global] Instance collection_eq_dec : EqDecision collection.
Proof. solve_decision. Defined.

Definition data_file (c : collection) : path :=
  match c with
  | posts => POSTS_FILE
  | projects => PROJECTS_FILE
  end.

(** [GET /posts], [GET /projects] *)
Definition listAll (c : collection) : M response :=
  match c with
  | posts => get_posts
  | projects => get_projects
  end.

(** [POST /posts], [POST /projects]: [upload.single("media")], then the
    handler.  What multer raises reaches no handler of the application. *)
Definition create (c : collection) (fields : record) (mediaInput : option upload)
  : M response :=
  stored_file ← upload_single mediaInput;
  let req := {| params_id := None; body := fields; file := stored_file |} in
  match c with
  | posts => post_posts req
  | projects => post_projects req
  end.

(** [PUT /posts/:id]; there is no such route for projects. *)
Definition update (id : jsnum) (partialFields : record) : M response :=
  put_posts {| params_id := id; body := partialFields; file := None |}.

(** [DELETE /posts/:id], [DELETE /projects/:id] *)
Definition delete (c : collection) (id : jsnum) : M response :=
  let req := {| params_id := id; body := ∅; file := None |} in
  match c with
  | posts => delete_posts req
  | projects => delete_projects req
  end.

Inductive call : Type :=
  | ListAll (c : collection)
  | Create (c : collection) (fields : record) (mediaInput : option upload)
  | Update (id : jsnum) (partialFields : record)
  | Delete (c : collection) (id : jsnum).



(** The required fields of a collection are there: [title] and [content]
    for posts, [title] for projects. *)
Definition valid (c : collection) (fields : record) : bool :=
  match c with
  | posts => truthy (fields !! "title") && truthy (fields !! "content")
  | projects => truthy (fields !! "title")
  end.







(** ** The stored collections *)

Definition stored (c : collection) (w : world) : option (list record) :=
  json_at w (data_file c).

(** Storage is available for [c]: the backing file holds an array or is
    missing, and it can be written (it is not protected, and the directory
    of the script is there). *)
Definition available (c : collection) (w : world) : Prop :=
  match fs w !! data_file c with
  | None | Some (File (Json _)) =>
      (data_file c ∉ denied w) ∧ (is_dir (fs w) __dirname = true)
  | Some _ => False
  end.

(** The array [loadData] yields for [c]: the stored one, the empty one when
    the backing file is missing. *)
Definition current (c : collection) (w : world) : list record :=
  default [] (stored c w).

Definition unique_ids (w : world) : Prop :=
  ∀ c l, stored c w = Some l → NoDup (ids l).





(** ** The routes and their handlers

    What [app.get], [app.post], [app.put] and [app.delete] register for the
    routes that answer with JSON. *)
Inductive route : Type :=
  | GET_posts
  | POST_posts
  | PUT_posts_id
  | DELETE_posts_id
  | GET_projects
  | POST_projects
  | DELETE_projects_id.

Definition handler (r : route) (req : request) : M response :=
  match r with
  | GET_posts => get_posts
  | POST_posts => post_posts req
  | PUT_posts_id => put_posts req
  | DELETE_posts_id => delete_posts req
  | GET_projects => get_projects
  | POST_projects => post_projects req
  | DELETE_projects_id => delete_projects req
  end.


(** The collection a request of the store works on. *)
Definition collection_of (k : call) : collection :=
  match k with
  | ListAll c => c
  | Create c _ _ => c
  | Update _ _ => posts
  | Delete c _ => c
  end.

End server.
End Full.

(** * The reduced server: [src/unnamed/part_001]

    No inline images, no update, no removal of projects; removing a post
    leaves its media file. *)
Module Reduced.
Section server.
Context `{!Runtime}.

Definition UPLOAD_DIR : path := path_join __dirname "uploads".
Definition POSTS_FILE : path := path_join __dirname "posts.json".
Definition PROJECTS_FILE : path := path_join __dirname "projects.json".

Definition loadData (filePath : path) : M (list record) :=
  present ← pathExists filePath;
  (if negb present then writeJson filePath [] else mret ());;
  readJson filePath.

(** [GET /posts] *)
Definition get_posts : M response :=
  try_catch
    (posts ← loadData POSTS_FILE;
     mret (Response 200 (Records posts)))
    (fun _ => mret (Response 500 (Error "Failed to load posts"))).

(** [POST /posts] *)
Definition post_posts (req : request) : M response :=
  try_catch
    (let title := body req !! "title" in
     let content := body req !! "content" in
     let type := body req !! "type" in
     let link := body req !! "link" in
     let blogLink := body req !! "blogLink" in
     if negb (truthy title) || negb (truthy content)
     then mret (Response 400 (Error "Title and content required"))
     else
       let mediaUrl :=
         match file req with
         | Some f => JStr ("/uploads/" +:+ filename f)
         | None => JNull
         end in
       id ← Date_now;
       createdAt ← Date_now;
       let newPost : record :=
         prop "id" (Some (JNum id))
           (prop "title" title
              (prop "content" content
                 (prop "type" (Some (js_or type (JStr "blog")))
                    (prop "link" (Some (js_or link JNull))
                       (prop "blogLink" (Some (js_or blogLink JNull))
                          (prop "media" (Some mediaUrl)
                             (prop "createdAt" (Some (JStr (toISOString createdAt)))
                                ∅))))))) in
       posts ← loadData POSTS_FILE;
       let posts := newPost :: posts in
       writeJson POSTS_FILE posts;;
       mret (Response 201 (Rec newPost)))
    (fun _ => mret (Response 500 (Error "Failed to create post"))).

(** [DELETE /posts/:id] *)
Definition delete_posts (req : request) : M response :=
  try_catch
    (let id := params_id req in
     posts ← loadData POSTS_FILE;
     let filtered := List.filter (fun p => negb (strict_eq_num (p !! "id") id)) posts in
     if (length posts =? length filtered)%nat
     then mret (Response 404 (Error "Post not found"))
     else
       writeJson POSTS_FILE filtered;;
       mret (Response 200 (Message "Post deleted")))
    (fun _ => mret (Response 500 (Error "Delete failed"))).

(** [GET /projects] *)
Definition get_projects : M response :=
  try_catch
    (projects ← loadData PROJECTS_FILE;
     mret (Response 200 (Records projects)))
    (fun _ => mret (Response 500 (Error "Failed to load projects"))).

(** [POST /projects] *)
Definition post_projects (req : request) : M response :=
  try_catch
    (let title := body req !! "title" in
     let link := body req !! "link" in
     if negb (truthy title)
     then mret (Response 400 (Error "Title required"))
     else
       let mediaUrl :=
         match file req with
         | Some f => JStr ("/uploads/" +:+ filename f)
         | None => JNull
         end in
       id ← Date_now;
       createdAt ← Date_now;
       let newProject : record :=
         prop "id" (Some (JNum id))
           (prop "title" title
              (prop "link" (Some (js_or link JNull))
                 (prop "media" (Some mediaUrl)
                    (prop "createdAt" (Some (JStr (toISOString createdAt)))
                       ∅)))) in
       projects ← loadData PROJECTS_FILE;
       let projects := newProject :: projects in
       writeJson PROJECTS_FILE projects;;
       mret (Response 201 (Rec newProject)))
    (fun _ => mret (Response 500 (Error "Project upload failed"))).

(** The routes that answer with JSON: there is no update, and no removal
    of projects. *)
Inductive route : Type :=
  | GET_posts
  | POST_posts
  | DELETE_posts_id
  | GET_projects
  | POST_projects.

Definition handler (r : route) (req : request) : M response :=
  match r with
  | GET_posts => get_posts
  | POST_posts => post_posts req
  | DELETE_posts_id => delete_posts req
  | GET_projects => get_projects
  | POST_projects => post_projects req
  end.

End server.
End Reduced.

(** * The minimal server: the first program of [src/index.js]

    No handler catches what the file system raises. *)
Module Minimal.
Section server.
Context `{!Runtime}.

Definition POSTS_FILE : path := path_join __dirname "posts.json".

Definition loadData (file : path) : M (list record) :=
  present ← pathExists file;
  (if negb present then writeJson file [] else mret ());;
  readJson file.

(** [GET /posts] *)
Definition get_posts : M response :=
  posts ← loadData POSTS_FILE;
  mret (Response 200 (Records posts)).

(** [POST /posts] *)
Definition post_posts (req : request) : M response :=
  let title := body req !! "title" in
  let content := body req !! "content" in
  if negb (truthy title) || negb (truthy content)
  then mret (Response 400 (Error "Title and content required"))
  else
    let mediaUrl :=
      match file req with
      | Some f => JStr ("/uploads/" +:+ filename f)
      | None => JNull
      end in
    id ← Date_now;
    createdAt ← Date_now;
    let newPost : record :=
      prop "id" (Some (JNum id))
        (prop "title" title
           (prop "content" content
              (prop "media" (Some mediaUrl)
                 (prop "createdAt" (Some (JStr (toISOString createdAt)))
                    ∅)))) in
    posts ← loadData POSTS_FILE;
    let posts := newPost :: posts in
    writeJson POSTS_FILE posts;;
    mret (Response 201 (Rec newPost)).

Definition PROJECTS_FILE : path := path_join __dirname "projects.json".

(** [GET /projects] *)
Definition get_projects : M response :=
  projects ← loadData PROJECTS_FILE;
  mret (Response 200 (Records projects)).

(** [POST /projects] *)
Definition post_projects (req : request) : M response :=
  let title := body req !! "title" in
  let link := body req !! "link" in
  if negb (truthy title)
  then mret (Response 400 (Error "Title required"))
  else
    let mediaUrl :=
      match file req with
      | Some f => JStr ("/uploads/" +:+ filename f)
      | None => JNull
      end in
    id ← Date_now;
    createdAt ← Date_now;
    let newProject : record :=
      prop "id" (Some (JNum id))
        (prop "title" title
           (prop "link" (Some (js_or link JNull))
              (prop "media" (Some mediaUrl)
                 (prop "createdAt" (Some (JStr (toISOString createdAt)))
                    ∅)))) in
    projects ← loadData PROJECTS_FILE;
    let projects := newProject :: projects in
    writeJson PROJECTS_FILE projects;;
    mret (Response 201 (Rec newProject)).

(** The routes that answer with JSON: lists and creates only. *)
Inductive route : Type :=
  | GET_posts
  | POST_posts
  | GET_projects
  | POST_projects.

Definition handler (r : route) (req : request) : M response :=
  match r with
  | GET_posts => get_posts
  | POST_posts => post_posts req
  | GET_projects => get_projects
  | POST_projects => post_projects req
  end.

End server.
End Minimal.

(** * Concrete worlds

    A runtime and a freshly installed server, to run the handlers on.  The
    two library functions are stand-ins: no statement below depends on what
    they compute. *)

Definition demo_runtime : Runtime :=
  {| __dirname := ["srv"; "app"];
     toISOString := fun t => "@" +:+ pretty t;
     base64_decode := fun s => s |}.

Definition installed_fs : gmap path node :=
  <[["srv"; "app"; "uploads"] := Dir]> (<[["srv"; "app"] := Dir]> (<[["srv"] := Dir]> ∅)).

(** After start-up, with a clock that advances by one millisecond between
    two readings. *)
Definition fresh_install : world :=
  {| fs := installed_fs; denied := ∅;
     clock := fun n => Z.of_nat n + 1700000000000; ticks := 0; console := [] |}.

(** The same, with every reading of the clock in the same millisecond. *)
Definition same_millisecond : world :=
  {| fs := installed_fs; denied := ∅;
     clock := fun _ => 1700000000000; ticks := 0; console := [] |}.

(** Two posts on disk, the newer first; the first has an image. *)
Definition first_post : record :=
  <["id" := JNum 1700000000007]> (<["title" := JStr "Second"]>
  (<["content" := JStr "newer"]> (<["type" := JStr "blog"]>
  (<["media" := JStr "/uploads/1700000000005-cat.png"]>
  (<["createdAt" := JStr "2023-11-14T22:13:20.007Z"]> ∅))))).

Definition second_post : record :=
  <["id" := JNum 1700000000001]> (<["title" := JStr "First"]>
  (<["content" := JStr "older"]> (<["type" := JStr "blog"]>
  (<["media" := JNull]>
  (<["createdAt" := JStr "2023-11-14T22:13:20.001Z"]> ∅))))).

Definition with_two_posts : world :=
  {| fs := <[["srv"; "app"; "uploads"; "1700000000005-cat.png"] := File (Raw "PNG")]>
           (<[["srv"; "app"; "posts.json"] := File (Json [first_post; second_post])]>
            installed_fs);
     denied := ∅;
     clock := fun n => Z.of_nat n + 1700000001000; ticks := 0; console := [] |}.

(** The same two posts, and one project. *)
Definition site_project : record :=
  <["id" := JNum 1700000000003]> (<["title" := JStr "Portfolio Site"]>
  (<["link" := JStr "https://x.io"]> (<["media" := JNull]>
  (<["createdAt" := JStr "2023-11-14T22:13:20.003Z"]> ∅)))).

Definition with_one_project : world :=
  {| fs := <[["srv"; "app"; "projects.json"] := File (Json [site_project])]>
             (fs with_two_posts);
     denied := ∅;
     clock := fun n => Z.of_nat n + 1700000001000; ticks := 0; console := [] |}.



(** * Properties *)

(** ** Running monadic code *)

Lemma bind_ok {A B} (m : M A) (k : A → M B) w w' a :
  m w = (w', inr a) → (m ≫= k) w = k a w'.
Proof. intros E. unfold mbind, M_bind. by rewrite E. Qed.

Lemma bind_throw {A B} (m : M A) (k : A → M B) w w' e :
  m w = (w', inl e) → (m ≫= k) w = (w', inl e).
Proof. intros E. unfold mbind, M_bind. by rewrite E. Qed.

Lemma try_catch_ok {A} (m : M A) h w w' a :
  m w = (w', inr a) → try_catch m h w = (w', inr a).
Proof. intros E. unfold try_catch. by rewrite E. Qed.

Lemma try_catch_throw {A} (m : M A) h w w' e :
  m w = (w', inl e) → try_catch m h w = h e w'.
Proof. intros E. unfold try_catch. by rewrite E. Qed.

(** ** Paths *)

Lemma removelast_snoc (p : path) (x : string) : removelast (p ++ [x]) = p.
Proof. apply removelast_last. Qed.

Lemma snoc_not_nil (p : path) (x : string) : p ++ [x] ≠ [].
Proof. by destruct p. Qed.

Lemma is_dir_snoc f (p : path) (x : string) :
  is_dir f (p ++ [x]) = match f !! (p ++ [x]) with Some Dir => true | _ => false end.
Proof. unfold is_dir. by destruct p. Qed.

(** ** fs-extra *)

Lemma write_node_ok p c w :
  p ∉ denied w → is_dir (fs w) p = false → is_dir (fs w) (parent p) = true →
  write_node p c w = (set_fs (insert p (File c)) w, inr ()).
Proof.
  intros Hd Hp Hpar. unfold write_node.
  rewrite decide_False by done. by rewrite Hp, Hpar.
Qed.

Lemma write_node_cases p c w :
  (∃ e, write_node p c w = (w, inl e)) ∨
  write_node p c w = (set_fs (insert p (File c)) w, inr ()).
Proof.
  unfold write_node. repeat case_match; eauto.
Qed.

Lemma readJson_json p l w :
  fs w !! p = Some (File (Json l)) → readJson p w = (w, inr l).
Proof. intros E. unfold readJson. by rewrite E. Qed.

Lemma pathExists_present p w :
  is_Some (fs w !! p) → pathExists p w = (w, inr true).
Proof.
  intros E. unfold pathExists. destruct p; [done|].
  by rewrite bool_decide_eq_true_2.
Qed.

Lemma pathExists_absent p w :
  p ≠ [] → fs w !! p = None → pathExists p w = (w, inr false).
Proof.
  intros Hp E. unfold pathExists. destruct p; [done|].
  rewrite bool_decide_eq_false_2; [done|]. rewrite E. by intros [? ?].
Qed.



(** After start-up the directory of the script and the uploads directory
    are there. *)
Lemma ensure_dirs_keeps (base segs : path) (f f' : gmap path node) (q : path) :
  ensure_dirs base segs f = Some f' → f !! q = Some Dir → f' !! q = Some Dir.
Proof.
  revert base f. induction segs as [|seg segs IH]; intros base f; simpl.
  - by intros [= <-].
  - destruct (f !! (base ++ [seg])) as [[|c]|] eqn:E; [apply IH|done|].
    intros Hens Hq. apply (IH _ _ Hens).
    rewrite lookup_insert_ne; [done|]. intros <-. congruence.
Qed.

Lemma ensure_dirs_made (base segs : path) (f f' : gmap path node) (pre post : path) :
  ensure_dirs base segs f = Some f' → segs = pre ++ post → pre ≠ [] →
  f' !! (base ++ pre) = Some Dir.
Proof.
  revert base f pre. induction segs as [|seg segs IH]; intros base f pre; simpl.
  - intros _ Hs Hpre. symmetry in Hs. apply app_eq_nil in Hs as [? _]. done.
  - intros Hens Hs Hpre. destruct pre as [|x pre]; [done|].
    injection Hs as <- Hs.
    assert (∀ g, ensure_dirs (base ++ [seg]) segs g = Some f' →
                 g !! (base ++ [seg]) = Some Dir →
                 f' !! (base ++ seg :: pre) = Some Dir) as Hstep.
    { intros g Hg Hd. destruct pre as [|y pre].
      - by apply (ensure_dirs_keeps _ _ _ _ _ Hg).
      - rewrite (cons_middle seg), app_assoc. by eapply IH. }
    destruct (f !! (base ++ [seg])) as [[|c]|] eqn:E; [by eapply Hstep|done|].
    eapply Hstep; [done|]. apply lookup_insert_eq.
Qed.

(** ** The full server *)

Section full.
Context `{!Runtime}.
Import Full.

Lemma data_file_eq c :
  data_file c = __dirname ++ [match c with posts => "posts.json" | projects => "projects.json" end].
Proof. by destruct c. Qed.

Lemma data_file_parent c : parent (data_file c) = __dirname.
Proof. rewrite data_file_eq. apply removelast_snoc. Qed.

Lemma data_file_not_root c : data_file c ≠ [].
Proof. rewrite data_file_eq. apply snoc_not_nil. Qed.


Lemma UPLOAD_DIR_eq : UPLOAD_DIR = __dirname ++ ["uploads"].
Proof. done. Qed.

Lemma startup_dirs w w' :
  startup w = (w', inr ()) →
  is_dir (fs w') __dirname = true ∧ is_dir (fs w') UPLOAD_DIR = true ∧
  denied w' = denied w.
Proof.
  unfold startup, ensureDirSync.
  destruct (ensure_dirs [] UPLOAD_DIR (fs w)) as [f|] eqn:E; [|done].
  intros [= <-]. simpl. split; [|split; [|done]].
  - assert (__dirname ≠ [] → f !! __dirname = Some Dir) as Hd.
    { intros Hne.
      by apply (ensure_dirs_made [] UPLOAD_DIR (fs w) f __dirname ["uploads"] E). }
    unfold is_dir. destruct __dirname; [done|]. by rewrite Hd.
  - assert (f !! UPLOAD_DIR = Some Dir) as Hd.
    { apply (ensure_dirs_made [] UPLOAD_DIR (fs w) f UPLOAD_DIR [] E).
      - by rewrite app_nil_r.
      - rewrite UPLOAD_DIR_eq. apply snoc_not_nil. }
    rewrite UPLOAD_DIR_eq, is_dir_snoc, <-UPLOAD_DIR_eq. by rewrite Hd.
Qed.

Lemma stored_Some c w l :
  stored c w = Some l ↔ fs w !! data_file c = Some (File (Json l)).
Proof.
  unfold stored, json_at. split; [|by intros ->].
  repeat case_match; naive_solver.
Qed.

Lemma loadData_cases p w :
  (∃ l, loadData p w = (w, inr l) ∧ fs w !! p = Some (File (Json l))) ∨
  (loadData p w = (set_fs (insert p (File (Json []))) w, inr []) ∧ fs w !! p = None) ∨
  (∃ e, loadData p w = (w, inl e) ∧ ∀ l, fs w !! p ≠ Some (File (Json l))).
Proof.
  unfold loadData.
  destruct (fs w !! p) as [n|] eqn:E.
  - rewrite (bind_ok _ _ w w true) by (apply pathExists_present; eauto).
    simpl. rewrite (bind_ok _ _ w w ()) by done.
    unfold readJson. rewrite E.
    destruct n as [|[l|d]].
    + right; right. eexists; split; [done|]. congruence.
    + left. eauto.
    + right; right. eexists; split; [done|]. congruence.
  - destruct (decide (p = [])) as [->|Hp].
    { right; right. rewrite (bind_ok _ _ w w true) by done. simpl.
      rewrite (bind_ok _ _ w w ()) by done. unfold readJson. rewrite E.
      eexists; split; [done|]. congruence. }
    rewrite (bind_ok _ _ w w false) by (by apply pathExists_absent).
    simpl. destruct (write_node_cases p (Json []) w) as [[e Hw]|Hw].
    + right; right. exists e. split; [|congruence].
      unfold writeJson. rewrite (bind_throw _ _ w w e) by done. done.
    + right; left. split; [|done].
      unfold writeJson. erewrite bind_ok by exact Hw.
      apply readJson_json. simpl. apply lookup_insert_eq.
Qed.

Lemma loadData_stored c w l :
  stored c w = Some l → loadData (data_file c) w = (w, inr l).
Proof.
  intros E%stored_Some.
  destruct (loadData_cases (data_file c) w) as [(l'&?&?)|[[? ?]|(e&?&Hn)]].
  - congruence.
  - congruence.
  - by destruct (Hn l).
Qed.

Lemma write_data_file c l w :
  data_file c ∉ denied w → is_dir (fs w) __dirname = true →
  fs w !! data_file c ≠ Some Dir →
  writeJson (data_file c) l w = (set_fs (insert (data_file c) (File (Json l))) w, inr ()).
Proof.
  intros Hd Hdir Hn. apply write_node_ok; [done| |by rewrite data_file_parent].
  rewrite data_file_eq, is_dir_snoc, <-data_file_eq.
  by repeat case_match.
Qed.

Lemma loadData_init c w :
  fs w !! data_file c = None → data_file c ∉ denied w → is_dir (fs w) __dirname = true →
  loadData (data_file c) w = (set_fs (insert (data_file c) (File (Json []))) w, inr []).
Proof.
  intros E Hd Hdir. unfold loadData.
  rewrite (bind_ok _ _ w w false)
    by (apply pathExists_absent; [apply data_file_not_root|done]).
  simpl. erewrite bind_ok by (apply write_data_file; [done..|by rewrite E]).
  apply readJson_json. simpl. apply lookup_insert_eq.
Qed.

End full.

Section listing.
Context `{!Runtime}.
Import Full.

(** C8. [listAll] returns the whole stored array, unchanged and without
    touching the world, when the backing file exists; when it does not, the
    file is first created holding the empty array and the empty sequence is
    returned. *)
Theorem listAll_returns_whole_array c w :
  available c w →
  (∀ l, fs w !! data_file c = Some (File (Json l)) →
        listAll c w = (w, inr (Response 200 (Records l)))) ∧
  (fs w !! data_file c = None →
        listAll c w =
          (set_fs (insert (data_file c) (File (Json []))) w,
           inr (Response 200 (Records [])))).
Proof.
  intros Hav. split.
  - intros l E%stored_Some. apply (loadData_stored c w l) in E.
    destruct c; simpl; unfold get_posts, get_projects;
      apply try_catch_ok; by erewrite bind_ok by exact E.
  - intros E. unfold available in Hav. rewrite E in Hav. destruct Hav as [Hd Hdir].
    pose proof (loadData_init c w E Hd Hdir) as L.
    destruct c; simpl; unfold get_posts, get_projects;
      apply try_catch_ok; by erewrite bind_ok by exact L.
Qed.

End listing.

Section listing_examples.
#[local] Existing Instance demo_runtime.

(** [fresh_install] is what start-up makes of a bare application
    directory. *)
Lemma fresh_install_started :
  Full.startup (set_fs (fun _ => <[["srv"; "app"] := Dir]> (<[["srv"] := Dir]> ∅))
                  fresh_install)
  = (fresh_install, inr ()).
Proof. reflexivity. Qed.

Lemma listAll_returns_whole_array_witness :
  Full.available Full.posts fresh_install ∧
  Full.listAll Full.posts fresh_install =
    (set_fs (insert ["srv"; "app"; "posts.json"] (File (Json []))) fresh_install,
     inr (Response 200 (Records []))).
Proof.
  assert (Full.available Full.posts fresh_install) as Hav.
  { split; [apply not_elem_of_empty|reflexivity]. }
  split; [exact Hav|].
  apply (proj2 (listAll_returns_whole_array Full.posts fresh_install Hav)).
  reflexivity.
Defined.

End listing_examples.

(** ** Searching an array *)

Lemma findIndex_Some {A} (f : A → bool) (l : list A) i :
  findIndex f l = Some i →
  ∃ x, l !! i = Some x ∧ f x = true ∧ List.find f l = Some x.
Proof.
  revert i. induction l as [|y l IH]; intros i; simpl; [done|].
  destruct (f y) eqn:Ey.
  - intros [= <-]. eauto.
  - destruct (findIndex f l) as [j|]; simpl; [|done].
    intros [= <-]. destruct (IH j eq_refl) as (x&?&?&?). eauto.
Qed.

Lemma findIndex_None {A} (f : A → bool) (l : list A) :
  findIndex f l = None ↔ ∀ x, x ∈ l → f x = false.
Proof.
  induction l as [|y l IH]; simpl.
  - split; [|done]. intros _ x Hx. by apply elem_of_nil in Hx.
  - destruct (f y) eqn:Ey.
    + split; [done|]. intros Hall. rewrite Hall in Ey; [done|]. by left.
    + rewrite fmap_None, IH. split.
      * intros Hall x [->|Hx]%elem_of_cons; auto.
      * intros Hall x Hx. apply Hall. by right.
Qed.

Lemma findIndex_is_Some {A} (f : A → bool) (l : list A) x :
  x ∈ l → f x = true → is_Some (findIndex f l).
Proof.
  intros Hx Hf. destruct (findIndex f l) eqn:E; [eauto|].
  rewrite findIndex_None in E. specialize (E x Hx). congruence.
Qed.

(** The index found is the first one: no element before it passes the
    test. *)
Lemma findIndex_first {A} (f : A → bool) (l : list A) i j y :
  findIndex f l = Some i → (j < i)%nat → l !! j = Some y → f y = false.
Proof.
  revert i j. induction l as [|x l IH]; intros i j; simpl; [done|].
  destruct (f x) eqn:Ex.
  - intros [= <-] Hj. lia.
  - destruct (findIndex f l) as [i'|]; simpl; [|done].
    intros [= <-] Hj. destruct j as [|j]; simpl.
    + by intros [= <-].
    + apply (IH i' j eq_refl). lia.
Qed.

(** ** Update *)

Section updating.
Context `{!Runtime}.
Import Full.

(** The record [{ ...old, ...updates, updatedAt }]. *)
Lemma merged_lookup (updates old : record) (stamp : jsval) k :
  (<["updatedAt" := stamp]> (updates ∪ old) : record) !! k =
    if decide (k = "updatedAt") then Some stamp
    else match updates !! k with
         | Some v => Some v
         | None => old !! k
         end.
Proof.
  case_decide as Hk.
  - subst k. apply lookup_insert_eq.
  - rewrite lookup_insert_ne by done.
    destruct (updates !! k) as [v|] eqn:E.
    + by apply lookup_union_Some_l.
    + by rewrite lookup_union_r.
Qed.

Lemma put_posts_found req w l i old :
  stored posts w = Some l →
  findIndex (has_id (params_id req)) l = Some i → l !! i = Some old →
  POSTS_FILE ∉ denied w → is_dir (fs w) __dirname = true →
  let merged : record :=
    <["updatedAt" := JStr (toISOString (clock w (ticks w)))]> (body req ∪ old) in
  put_posts req w =
    ({| fs := <[POSTS_FILE := File (Json (<[i := merged]> l))]> (fs w);
        denied := denied w; clock := clock w; ticks := S (ticks w);
        console := console w ++ [Log ("✏️ Updated post " +:+ String_num (params_id req))] |},
     inr (Response 200 (Rec merged))).
Proof.
  intros Hl Hi Hold Hd Hdir merged.
  assert (i < length l)%nat as Hlen by (by eapply lookup_lt_Some).
  unfold put_posts. apply try_catch_ok.
  erewrite bind_ok by (by apply (loadData_stored posts)).
  unfold has_id in Hi. rewrite Hi.
  erewrite bind_ok by reflexivity.
  rewrite (list_lookup_total_correct l i old Hold).
  fold merged.
  erewrite bind_ok.
  2:{ apply (write_data_file posts); [done..|].
      apply stored_Some in Hl. simpl in *. by rewrite Hl. }
  erewrite bind_ok by reflexivity.
  simpl. rewrite list_lookup_total_insert_eq by done. done.
Qed.

Lemma put_posts_not_found req w l :
  stored posts w = Some l →
  (∀ r, r ∈ l → has_id (params_id req) r = false) →
  put_posts req w = (w, inr (Response 404 (Error "Post not found"))).
Proof.
  intros Hl Hno. unfold put_posts. apply try_catch_ok.
  erewrite bind_ok by (by apply (loadData_stored posts)).
  apply findIndex_None in Hno. unfold has_id in Hno. by rewrite Hno.
Qed.

End updating.

Section update_claims.
Context `{!Runtime}.
Import Full.

(** C6, as the code has it.  There is an update of posts, and no other.
    An update of a post that exists merges the provided fields over the
    first post that carries the id, field by field (a field the caller
    omits keeps its prior value), stamps [updatedAt] with the time of the
    call, rewrites the backing file with the merged record in the place of
    that post, every other post being as it was, and returns the merged
    record. *)
Theorem update_merges_over_existing id partialFields w l r :
  stored posts w = Some l → r ∈ l → has_id id r = true →
  POSTS_FILE ∉ denied w → is_dir (fs w) __dirname = true →
  ∃ w' i old merged,
    update id partialFields w = (w', inr (Response 200 (Rec merged))) ∧
    findIndex (has_id id) l = Some i ∧ l !! i = Some old ∧
    has_id id old = true ∧
    (∀ j r', (j < i)%nat → l !! j = Some r' → has_id id r' = false) ∧
    stored posts w' = Some (<[i := merged]> l) ∧
    (∀ k v, k ≠ "updatedAt" → partialFields !! k = Some v → merged !! k = Some v) ∧
    (∀ k, k ≠ "updatedAt" → partialFields !! k = None → merged !! k = old !! k) ∧
    merged !! "updatedAt" = Some (JStr (toISOString (clock w (ticks w)))).
Proof.
  intros Hl Hr Hid Hd Hdir.
  destruct (findIndex_is_Some (has_id id) l r Hr Hid) as [i Hi].
  destruct (findIndex_Some _ _ _ Hi) as (old & Hold & Hidold & _).
  eexists _, i, old, _. split.
  { unfold update. by apply put_posts_found. }
  split; [done|]. split; [done|]. split; [done|]. split.
  { intros j r' Hj Hr'. by apply (findIndex_first _ _ _ _ _ Hi Hj Hr'). }
  split.
  { apply stored_Some. simpl. apply lookup_insert_eq. }
  split; [|split].
  - intros k v Hk Hv. rewrite merged_lookup, decide_False by done. simpl. by rewrite Hv.
  - intros k Hk Hv. rewrite merged_lookup, decide_False by done. simpl. by rewrite Hv.
  - rewrite merged_lookup. by rewrite decide_True.
Qed.

(** C10. The caller's fields take precedence over every existing field,
    whatever the key ([id] and [createdAt] included): the record that is
    stored and returned carries the caller's value, except for
    [updatedAt], which is the time of the call even when the caller
    supplies one. *)
Theorem update_caller_fields_win id partialFields w l r :
  stored posts w = Some l → r ∈ l → has_id id r = true →
  POSTS_FILE ∉ denied w → is_dir (fs w) __dirname = true →
  ∃ w' i l' merged,
    update id partialFields w = (w', inr (Response 200 (Rec merged))) ∧
    stored posts w' = Some l' ∧ l' !! i = Some merged ∧
    findIndex (has_id id) l = Some i ∧
    (∀ k v, partialFields !! k = Some v →
            merged !! k =
              Some (if decide (k = "updatedAt")
                    then JStr (toISOString (clock w (ticks w))) else v)) ∧
    merged !! "updatedAt" = Some (JStr (toISOString (clock w (ticks w)))).
Proof.
  intros Hl Hr Hid Hd Hdir.
  destruct (findIndex_is_Some (has_id id) l r Hr Hid) as [i Hi].
  destruct (findIndex_Some _ _ _ Hi) as (old & Hold & _ & _).
  eexists _, i, _, _. split.
  { unfold update. by apply put_posts_found. }
  split; [apply stored_Some; simpl; apply lookup_insert_eq|].
  split; [apply list_lookup_insert_eq; by eapply lookup_lt_Some|].
  split; [done|]. split.
  - intros k v Hv. rewrite merged_lookup. case_decide; [done|]. simpl. by rewrite Hv.
  - rewrite merged_lookup. by rewrite decide_True.
Qed.

(** C5, as the code has it.  An update with an id that no record carries
    fails with 404; a backing file that exists is left as it is (the whole
    world is), and a missing one is created holding the empty array: the
    stored collection is the same before and after. *)
Theorem update_unknown_id_not_found id partialFields w :
  available posts w →
  (∀ r, r ∈ current posts w → has_id id r = false) →
  ∃ w',
    update id partialFields w = (w', inr (Response 404 (Error "Post not found"))) ∧
    stored posts w' = Some (current posts w) ∧
    (is_Some (fs w !! POSTS_FILE) → w' = w) ∧
    (fs w !! POSTS_FILE = None →
       w' = set_fs (insert POSTS_FILE (File (Json []))) w).
Proof.
  intros Hav Hno. unfold available, current, stored, json_at in *. simpl in *.
  destruct (fs w !! POSTS_FILE) as [[|[l|d]]|] eqn:E; try done.
  - exists w. split; [|split; [|split]].
    + apply put_posts_not_found with l; [by apply stored_Some|done].
    + by rewrite E.
    + done.
    + done.
  - destruct Hav as [Hd Hdir].
    eexists. split; [|split; [|split]].
    + unfold update, put_posts. apply try_catch_ok.
      erewrite bind_ok by (by apply (loadData_init posts)). done.
    + simpl. by rewrite lookup_insert_eq.
    + by intros [? ?].
    + done.
Qed.

End update_claims.

Section update_examples.
#[local] Existing Instance demo_runtime.

(** An update of the older of two posts, which is the second of the
    array: the newer post stays as it is. *)
Lemma update_merges_over_existing_witness :
  (Full.stored Full.posts with_two_posts = Some [first_post; second_post] ∧
   second_post ∈ [first_post; second_post] ∧
   has_id (Some 1700000000001) second_post = true ∧
   (Full.POSTS_FILE ∉ denied with_two_posts) ∧
   is_dir (fs with_two_posts) __dirname = true) ∧
  ∃ w' merged,
    Full.update (Some 1700000000001) {[ "title" := JStr "Renamed" ]} with_two_posts
      = (w', inr (Response 200 (Rec merged))) ∧
    Full.stored Full.posts w' = Some [first_post; merged] ∧
    merged !! "title" = Some (JStr "Renamed") ∧
    merged !! "content" = Some (JStr "older") ∧
    merged !! "id" = Some (JNum 1700000000001) ∧
    merged !! "updatedAt" = Some (JStr (toISOString 1700000001000)).
Proof.
  assert (second_post ∈ [first_post; second_post]) as Hin by (right; left).
  assert (Full.POSTS_FILE ∉ denied with_two_posts) as Hd
    by apply not_elem_of_empty.
  split; [repeat split; done|].
  assert (Full.stored Full.posts with_two_posts = Some [first_post; second_post]) as Hl
    by reflexivity.
  assert (has_id (Some 1700000000001) second_post = true) as Hid by reflexivity.
  assert (is_dir (fs with_two_posts) __dirname = true) as Hdir by reflexivity.
  destruct (update_merges_over_existing (Some 1700000000001)
              {[ "title" := JStr "Renamed" ]} with_two_posts
              [first_post; second_post] second_post Hl Hin Hid Hd Hdir)
    as (w' & i & old & merged & Hup & Hi & Hold & _ & _ & Hst & Hnew & Hkept & Hstamp).
  assert (i = 1%nat) as -> by (vm_compute in Hi; congruence).
  assert (old = second_post) as -> by (simpl in Hold; congruence).
  exists w', merged. split; [exact Hup|]. split; [exact Hst|].
  split; [by apply Hnew|]. split; [by rewrite Hkept|].
  split; [by rewrite Hkept|exact Hstamp].
Defined.

(** C6 as stated fails for the other collection: there is no update of
    projects.  The one update there is, given the id of a project that
    exists, answers 404 and leaves the project as it was. *)
Lemma update_of_a_project_not_found :
  let res :=
    Full.update (Some 1700000000003) {[ "title" := JStr "Renamed" ]} with_one_project in
  Full.stored Full.projects with_one_project = Some [site_project] ∧
  has_id (Some 1700000000003) site_project = true ∧
  res.2 = inr (Response 404 (Error "Post not found")) ∧
  Full.stored Full.projects res.1 = Some [site_project].
Proof.
  cbv zeta. unfold Full.update.
  rewrite (put_posts_not_found _ with_one_project [first_post; second_post]).
  - repeat split.
  - reflexivity.
  - intros r [->|[->|[]%elem_of_nil]%elem_of_cons]%elem_of_cons; reflexivity.
Qed.

Lemma update_caller_fields_win_witness :
  (Full.stored Full.posts with_two_posts = Some [first_post; second_post] ∧
   first_post ∈ [first_post; second_post] ∧
   has_id (Some 1700000000007) first_post = true ∧
   (Full.POSTS_FILE ∉ denied with_two_posts) ∧
   is_dir (fs with_two_posts) __dirname = true) ∧
  ∃ w' i l' merged,
    Full.update (Some 1700000000007)
      (<["id" := JNum 5]> {[ "updatedAt" := JStr "never" ]}) with_two_posts
      = (w', inr (Response 200 (Rec merged))) ∧
    Full.stored Full.posts w' = Some l' ∧ l' !! i = Some merged ∧
    findIndex (has_id (Some 1700000000007)) [first_post; second_post] = Some i ∧
    (∀ k v, (<["id" := JNum 5]> {[ "updatedAt" := JStr "never" ]} : record) !! k = Some v →
            merged !! k =
              Some (if decide (k = "updatedAt")
                    then JStr (toISOString
                                 (clock with_two_posts (ticks with_two_posts)))
                    else v)) ∧
    merged !! "updatedAt" =
      Some (JStr (toISOString (clock with_two_posts (ticks with_two_posts)))).
Proof.
  assert (first_post ∈ [first_post; second_post]) as Hin by left.
  assert (Full.POSTS_FILE ∉ denied with_two_posts) as Hd
    by apply not_elem_of_empty.
  split; [repeat split; done|].
  exact (update_caller_fields_win (Some 1700000000007)
           (<["id" := JNum 5]> {[ "updatedAt" := JStr "never" ]}) with_two_posts
           [first_post; second_post] first_post eq_refl Hin eq_refl Hd eq_refl).
Defined.

Lemma update_unknown_id_not_found_witness :
  (Full.available Full.posts with_two_posts ∧
   ∀ r, r ∈ Full.current Full.posts with_two_posts →
        has_id (Some 42) r = false) ∧
  ∃ w',
    Full.update (Some 42) {[ "title" := JStr "x" ]} with_two_posts
      = (w', inr (Response 404 (Error "Post not found"))) ∧
    Full.stored Full.posts w'
      = Some (Full.current Full.posts with_two_posts) ∧
    (is_Some (fs with_two_posts !! Full.POSTS_FILE) → w' = with_two_posts) ∧
    (fs with_two_posts !! Full.POSTS_FILE = None →
       w' = set_fs (insert (Full.POSTS_FILE) (File (Json []))) with_two_posts).
Proof.
  assert (Full.available Full.posts with_two_posts) as Hav.
  { split; [apply not_elem_of_empty|reflexivity]. }
  assert (∀ r, r ∈ Full.current Full.posts with_two_posts →
               has_id (Some 42) r = false) as Hno.
  { intros r Hr. change (r ∈ [first_post; second_post]) in Hr.
    apply elem_of_cons in Hr as [->|Hr]; [reflexivity|].
    apply elem_of_cons in Hr as [->|Hr]; [reflexivity|].
    by apply elem_of_nil in Hr. }
  split; [by split|].
  exact (update_unknown_id_not_found (Some 42)
           {[ "title" := JStr "x" ]} with_two_posts Hav Hno).
Defined.

(** C5 as stated fails where the backing file is missing: the update is
    refused with 404, yet the file did not exist before the call and holds
    the empty array after it. *)
Lemma update_unknown_id_creates_file :
  let res := Full.update (Some 42) {[ "title" := JStr "x" ]} fresh_install in
  res.2 = inr (Response 404 (Error "Post not found")) ∧
  fs fresh_install !! Full.POSTS_FILE = None ∧
  fs res.1 !! Full.POSTS_FILE = Some (File (Json [])) ∧
  fs res.1 !! Full.POSTS_FILE ≠ fs fresh_install !! Full.POSTS_FILE.
Proof. vm_compute. repeat split; discriminate. Qed.

End update_examples.

(** ** File names made of a clock reading *)








(** ** The name multer stores a file under *)








(** ** Create: validation *)

Section validation.
Context `{!Runtime}.
Import Full.


Lemma post_projects_invalid req w :
  truthy (body req !! "title") = false →
  post_projects req w = (w, inr (Response 400 (Error "Project title is required"))).
Proof.
  intros Hv. unfold post_projects. apply try_catch_ok. by rewrite Hv.
Qed.




End validation.

Section validation_examples.
#[local] Existing Instance demo_runtime.



End validation_examples.

(** ** The payload of a data URL *)









(** ** Create: inline images *)

Section inline.
Context `{!Runtime}.
Import Full.















End inline.

Section inline_claim.
Context `{!Runtime}.
Import Full.







End inline_claim.

Section inline_examples.
#[local] Existing Instance demo_runtime.


(** A title that cannot be converted to a string, here an object with a
    key [toString]: the image is written and the record stored, and the
    answer is 500. *)
Lemma create_with_unprintable_title :
  let fields : record :=
    <["title" := JObj [("toString", JNum 1)]]> (<["content" := JStr "World"]>
      {[ "media" := JStr "data:image/png;base64,aGk=" ]}) in
  let res := Full.create Full.posts fields None fresh_install in
  Full.valid Full.posts fields = true ∧
  res.2 = inr (Response 500 (Error "Failed to add post")) ∧
  fs res.1 !! ["srv"; "app"; "uploads"; "1700000000000.png"] = Some (File (Raw "aGk=")) ∧
  (length <$> Full.stored Full.posts res.1) = Some 1%nat.
Proof. vm_compute. repeat split. Qed.

End inline_examples.

(** ** Delete *)

Section deleting.
Context `{!Runtime}.
Import Full.





End deleting.

Section deleting_found.
Context `{!Runtime}.
Import Full.

Lemma delete_posts_eq req : delete_posts req = delete_handler POSTS_FILE posts_wording req.
Proof. reflexivity. Qed.

Lemma delete_projects_eq req :
  delete_projects req = delete_handler PROJECTS_FILE projects_wording req.
Proof. reflexivity. Qed.





End deleting_found.

(** ** The reduced server *)

Section variants.
Context `{!Runtime}.

(** Removing a post on the reduced server touches the backing file and
    nothing else: the media file of the post stays where it is. *)
Lemma reduced_delete_touches_backing_file_only req w q :
  q ≠ Reduced.POSTS_FILE →
  fs (Reduced.delete_posts req w).1 !! q = fs w !! q.
Proof.
  intros Hq. unfold Reduced.delete_posts, try_catch. cbv zeta.
  assert (∀ p w0,
            (fs (Reduced.loadData p w0).1 = fs w0) ∨
            (fs (Reduced.loadData p w0).1 = <[p := File (Json [])]> (fs w0))) as Hload.
  { intros p w0. destruct (loadData_cases p w0)
      as [(l & E & _)|[[E _]|(e & E & _)]];
      change (Reduced.loadData p w0) with (Full.loadData p w0); rewrite E; simpl; eauto. }
  unfold mbind at 1, M_bind at 1.
  specialize (Hload Reduced.POSTS_FILE w).
  destruct (Reduced.loadData Reduced.POSTS_FILE w) as [w1 [e|l]]; simpl in Hload.
  - simpl. destruct Hload as [-> | ->]; [done|]. by rewrite lookup_insert_ne.
  - assert (fs w1 !! q = fs w !! q) as E1.
    { destruct Hload as [-> | ->]; [done|]. by rewrite lookup_insert_ne. }
    destruct (length l =? length _)%nat; simpl; [done|].
    unfold mbind, M_bind, writeJson.
    match goal with |- context [write_node ?p ?c w1] =>
      destruct (write_node_cases p c w1) as [[e ->]| ->] end; simpl; [done|].
    by rewrite lookup_insert_ne.
Qed.

End variants.

Section delete_claims.
Context `{!Runtime}.
Import Full.










End delete_claims.

Section delete_examples.
#[local] Existing Instance demo_runtime.






(** A post whose media is the number 5, as an update can leave it: the
    delete answers 500 and the post stays. *)
Lemma delete_with_numeric_media_fails :
  let w :=
    set_fs (insert ["srv"; "app"; "posts.json"]
              (File (Json [<["media" := JNum 5]> first_post; second_post])))
      with_two_posts in
  let res := Full.delete Full.posts (Some 1700000000007) w in
  res.2 = inr (Response 500 (Error "Failed to delete post")) ∧
  (ids <$> Full.stored Full.posts res.1)
    = Some [Some (JNum 1700000000007); Some (JNum 1700000000001)] ∧
  fs res.1 !! ["srv"; "app"; "uploads"; "1700000000005-cat.png"]
    = Some (File (Raw "PNG")).
Proof. vm_compute. repeat split. Qed.




End delete_examples.

(** ** What a create does to the stored collections *)

Section create_effect.
Context `{!Runtime}.
Import Full.










End create_effect.

Section create_cases.
Context `{!Runtime}.
Import Full.













End create_cases.

(** ** Listing after creates *)

Section newest_first.
Context `{!Runtime}.
Import Full.





End newest_first.

Section plain_create.
Context `{!Runtime}.
Import Full.


End plain_create.

Section newest_first_claim.
Context `{!Runtime}.
Import Full.



End newest_first_claim.

Section newest_first_examples.
#[local] Existing Instance demo_runtime.


End newest_first_examples.

(** ** Unique ids *)

Section unique.
Context `{!Runtime}.
Import Full.







End unique.

Section unique_steps.
Context `{!Runtime}.
Import Full.

Lemma and_startsWith_pure v pre w : (and_startsWith v pre w).1 = w.
Proof.
  unfold and_startsWith. destruct (truthy v); [|done].
  by destruct v as [[| | | | |]|].
Qed.




End unique_steps.

Section unique_delete.
Context `{!Runtime}.
Import Full.



End unique_delete.

Section unique_claim.
Context `{!Runtime}.
Import Full.






End unique_claim.

Section unique_examples.
#[local] Existing Instance demo_runtime.

Lemma fresh_install_unique : Full.unique_ids fresh_install.
Proof. intros c l Hl. by destruct c. Qed.






End unique_examples.


(** ** The reduced and the minimal server on concrete worlds *)

Section variant_examples.
#[local] Existing Instance demo_runtime.

(** The minimal server takes its ids from the clock in the same way: two
    posts created in the same millisecond share their id. *)
Lemma minimal_same_millisecond_ids :
  let req :=
    {| params_id := None;
       body := <["title" := JStr "T"]> {[ "content" := JStr "C" ]}; file := None |} in
  let w2 := (Minimal.post_posts req (Minimal.post_posts req same_millisecond).1).1 in
  (ids <$> json_at w2 Minimal.POSTS_FILE)
    = Some [Some (JNum 1700000000000); Some (JNum 1700000000000)].
Proof. vm_compute. reflexivity. Qed.

End variant_examples.
(** * More of the three servers *)

(** ** What the handlers may do *)

Section within_rules.
Context {R : world → world → Prop}.
Hypothesis R_refl : ∀ w, R w w.
Hypothesis R_trans : ∀ w1 w2 w3, R w1 w2 → R w2 w3 → R w1 w3.

Lemma within_ret {A} (a : A) (P : A → Prop) : P a → within R (mret a) P.
Proof. intros Ha w. split; [apply R_refl|]. by intros a' [= <-]. Qed.

Lemma within_throw {A} (e : exn) (P : A → Prop) : within R (throw e) P.
Proof. intros w. split; [apply R_refl|done]. Qed.

Lemma within_bind {A B} (m : M A) (k : A → M B) (P1 : A → Prop) (P : B → Prop) :
  within R m P1 → (∀ a, P1 a → within R (k a) P) → within R (m ≫= k) P.
Proof.
  intros Hm Hk w. destruct (Hm w) as [HR HP].
  unfold mbind, M_bind. destruct (m w) as [w1 [e|a]]; simpl in *.
  - split; [done|done].
  - destruct (Hk a (HP a eq_refl) w1) as [HR' HP'].
    split; [by eapply R_trans|done].
Qed.

(** A computation that leaves the world as it is. *)
Lemma within_pure {A} (m : M A) :
  (∀ w, (m w).1 = w) → within R m (fun _ => True).
Proof. intros Hm w. rewrite Hm. split; [apply R_refl|done]. Qed.

End within_rules.

Section within_primitives.
Context `{!Runtime}.
Context {R : world → world → Prop}.
Hypothesis R_refl : ∀ w, R w w.
Hypothesis R_trans : ∀ w1 w2 w3, R w1 w2 → R w2 w3 → R w1 w3.
Hypothesis R_fs : ∀ w f, R w (set_fs f w).
Hypothesis R_tick : ∀ w,
  R w {| fs := fs w; denied := denied w; clock := clock w; ticks := S (ticks w);
         console := console w |}.

Lemma within_Date_now : within R Date_now (fun _ => True).
Proof. intros w. split; [apply R_tick|done]. Qed.

Lemma within_pathExists p : within R (pathExists p) (fun _ => True).
Proof. by apply (within_pure R_refl). Qed.

Lemma within_readJson p : within R (readJson p) (fun _ => True).
Proof. apply (within_pure R_refl). intros w. unfold readJson. by repeat case_match. Qed.

Lemma within_write_node p c : within R (write_node p c) (fun _ => True).
Proof.
  intros w. destruct (write_node_cases p c w) as [[e ->]| ->]; simpl; split; auto.
Qed.

Lemma within_writeJson p l : within R (writeJson p l) (fun _ => True).
Proof. apply within_write_node. Qed.

Lemma within_remove p : within R (remove p) (fun _ => True).
Proof. intros w. unfold remove. case_decide; simpl; split; auto. Qed.

Lemma within_and_startsWith v pre : within R (and_startsWith v pre) (fun _ => True).
Proof. apply (within_pure R_refl). apply and_startsWith_pure. Qed.

Lemma within_template v : within R (template v) (fun _ => True).
Proof. apply (within_pure R_refl). intros w. unfold template. by case_match. Qed.

Lemma within_loadData p : within R (Full.loadData p) (fun _ => True).
Proof.
  unfold Full.loadData.
  eapply (within_bind R_trans); [apply within_pathExists|intros present _].
  apply (within_bind R_trans _ _ (fun _ => True)); [|intros ? _; apply within_readJson].
  destruct present; simpl; [by apply (within_ret R_refl)|apply within_writeJson].
Qed.

End within_primitives.

Create HintDb within discriminated.

#[export] Hint Resolve within_Date_now within_pathExists within_readJson
  within_write_node within_writeJson within_remove within_and_startsWith
  within_template within_loadData : within.

Section quiet_steps.

Lemma quiet_refl w : quiet w w.
Proof. done. Qed.

Lemma quiet_trans w1 w2 w3 : quiet w1 w2 → quiet w2 w3 → quiet w1 w3.
Proof. unfold quiet. congruence. Qed.

Lemma quiet_fs w f : quiet w (set_fs f w).
Proof. done. Qed.

Lemma quiet_tick w :
  quiet w {| fs := fs w; denied := denied w; clock := clock w; ticks := S (ticks w);
             console := console w |}.
Proof. done. Qed.

Lemma within_console_log s : within quiet (console_log s) (fun _ => True).
Proof.
  intros w. split; [|done]. unfold quiet, errors. simpl.
  by rewrite List.filter_app, length_app, Nat.add_0_r.
Qed.

Lemma silent_refl w : silent w w.
Proof. done. Qed.

Lemma silent_trans w1 w2 w3 : silent w1 w2 → silent w2 w3 → silent w1 w3.
Proof. unfold silent. congruence. Qed.

Lemma silent_fs w f : silent w (set_fs f w).
Proof. done. Qed.

Lemma silent_tick w :
  silent w {| fs := fs w; denied := denied w; clock := clock w; ticks := S (ticks w);
              console := console w |}.
Proof. done. Qed.

End quiet_steps.

#[export] Hint Resolve quiet_refl quiet_trans quiet_fs quiet_tick within_console_log
  silent_refl silent_trans silent_fs silent_tick : within.

(** A step through a handler body that logs no error: a bind goes on with
    its continuation, a primitive is looked up, a test is decided both
    ways. *)
Ltac quiet_step :=
  lazymatch goal with
  | |- within quiet (mret _) _ => apply (within_ret quiet_refl)
  | |- within quiet (_ ≫= _) _ =>
      apply (within_bind quiet_trans _ _ (fun _ => True)); [|intros ? _]
  | |- within quiet (if ?b then _ else _) _ => destruct b
  | |- within quiet (match ?x with _ => _ end) _ => destruct x
  | |- within quiet _ _ => solve [eauto with within]
  end.

(** The same through a body that writes nothing to the console. *)
Ltac silent_step :=
  lazymatch goal with
  | |- within silent (mret _) _ => apply (within_ret silent_refl)
  | |- within silent (_ ≫= _) _ =>
      apply (within_bind silent_trans _ _ (fun _ => True)); [|intros ? _]
  | |- within silent (if ?b then _ else _) _ => destruct b
  | |- within silent (match ?x with _ => _ end) _ => destruct x
  | |- within silent (Reduced.loadData ?p) _ =>
      change (Reduced.loadData p) with (Full.loadData p)
  | |- within silent _ _ => solve [eauto with within]
  end.

(** ** Every handler of the full server answers, and logs what it caught *)

Section full_answers.
Context `{!Runtime}.
Import Full.

(** What [try { body } catch (err) { console.error(line, err); 500 }]
    answers when the body logs no error. *)
Lemma try_catch_answers (m : M response) (line msg : string) (P : response → Prop) :
  within quiet m P →
  ∀ w, ∃ w' resp,
    try_catch m (fun err => console_error line err;; mret (Response 500 (Error msg))) w
      = (w', inr resp) ∧
    (P resp ∧ errors w' = errors w ∨
     resp = Response 500 (Error msg) ∧ errors w' = S (errors w)).
Proof.
  intros Hm w. destruct (Hm w) as [HR HP]. unfold try_catch.
  destruct (m w) as [w1 [e|resp]]; simpl in *.
  - eexists _, _. split; [reflexivity|]. right. split; [done|].
    unfold quiet, errors in *. simpl.
    rewrite List.filter_app, length_app. simpl. lia.
  - eexists _, _. split; [reflexivity|]. left. auto.
Qed.

Lemma full_handler_cases r req w :
  ∃ w' resp,
    handler r req w = (w', inr resp) ∧
    (status resp ∈ match r with
                   | GET_posts | GET_projects => [200]
                   | POST_posts | POST_projects => [201; 400]
                   | _ => [200; 404]
                   end ∧ errors w' = errors w ∨
     status resp = 500 ∧ errors w' = S (errors w)).
Proof.
  assert (∀ m line msg P,
            within quiet m (fun resp => status resp ∈ (P : list Z)) →
            ∃ w' resp,
              try_catch m (fun err => console_error line err;;
                                      mret (Response 500 (Error msg))) w = (w', inr resp) ∧
              (status resp ∈ P ∧ errors w' = errors w ∨
               status resp = 500 ∧ errors w' = S (errors w))) as Htry.
  { intros m line msg P Hm.
    destruct (try_catch_answers m line msg _ Hm w) as (w' & resp & E & [?|[-> ?]]);
      eauto 10. }
  destruct r; simpl; apply Htry; cbv zeta; repeat quiet_step;
    first [exact I | rewrite list_elem_of_In; simpl; tauto].
Qed.

(** X1. Every handler of the full server answers, whatever the request
    and whatever the storage does: nothing a handler raises escapes it.
    The status is 200 or 500 for a listing, 201, 400 or 500 for a create,
    200, 404 or 500 for an update and for a delete. *)
Theorem full_handlers_always_answer r req w :
  ∃ w' resp,
    handler r req w = (w', inr resp) ∧
    status resp ∈ match r with
                  | GET_posts | GET_projects => [200; 500]
                  | POST_posts | POST_projects => [201; 400; 500]
                  | _ => [200; 404; 500]
                  end.
Proof.
  destruct (full_handler_cases r req w) as (w' & resp & E & [[Hs _]|[Hs _]]);
    exists w', resp; (split; [exact E|]).
  - destruct r; rewrite list_elem_of_In in *; simpl in *; tauto.
  - rewrite Hs. destruct r; rewrite list_elem_of_In; simpl; tauto.
Qed.

(** X2. On the full server an answer of 500 and a line of
    [console.error] go together: a handler that answers 500 has logged
    exactly one error, and a handler that answers anything else has logged
    none. *)
Theorem full_errors_are_logged r req w :
  ∃ w' resp,
    handler r req w = (w', inr resp) ∧
    errors w' = (errors w + if bool_decide (status resp = 500%Z) then 1 else 0)%nat.
Proof.
  destruct (full_handler_cases r req w) as (w' & resp & E & [[Hs He]|[Hs He]]);
    exists w', resp; (split; [exact E|]).
  - rewrite bool_decide_eq_false_2; [lia|].
    intros E5. rewrite E5, list_elem_of_In in Hs. destruct r; simpl in Hs; lia.
  - rewrite bool_decide_eq_true_2 by done. lia.
Qed.

End full_answers.

(** ** The reduced server answers and logs nothing *)

Section reduced_answers.
Context `{!Runtime}.

(** What [try { body } catch { 500 }] answers. *)
Lemma try_catch_swallows (m : M response) (failed : response) (P : response → Prop) :
  within silent m P →
  ∀ w, ∃ w' resp,
    try_catch m (fun _ => mret failed) w = (w', inr resp) ∧
    console w' = console w ∧ (P resp ∨ resp = failed).
Proof.
  intros Hm w. destruct (Hm w) as [HR HP]. unfold try_catch.
  destruct (m w) as [w1 [e|resp]]; simpl in *; eexists _, _; eauto.
Qed.

(** X3. Every handler of the reduced server answers, with 200 or 500 for
    a listing, 201, 400 or 500 for a create and 200, 404 or 500 for the
    delete, and none of them writes to the console: what the storage raises
    is answered with 500 and is otherwise lost. *)
Theorem reduced_handlers_answer_silently r req w :
  ∃ w' resp,
    Reduced.handler r req w = (w', inr resp) ∧
    console w' = console w ∧
    status resp ∈ match r with
                  | Reduced.GET_posts | Reduced.GET_projects => [200; 500]
                  | Reduced.POST_posts | Reduced.POST_projects => [201; 400; 500]
                  | Reduced.DELETE_posts_id => [200; 404; 500]
                  end.
Proof.
  assert (∀ m msg P,
            within silent m (fun resp => status resp ∈ (P : list Z)) → 500 ∈ P →
            ∃ w' resp,
              try_catch m (fun _ => mret (Response 500 (Error msg))) w = (w', inr resp) ∧
              console w' = console w ∧ status resp ∈ P) as Htry.
  { intros m msg P Hm H5.
    destruct (try_catch_swallows m (Response 500 (Error msg)) _ Hm w)
      as (w' & resp & E & Hc & [?| ->]); eauto 10. }
  destruct r; simpl; apply Htry; try (rewrite list_elem_of_In; simpl; tauto);
    cbv zeta; repeat silent_step;
    first [exact I | rewrite list_elem_of_In; simpl; tauto].
Qed.

End reduced_answers.

(** ** The minimal server raises where the full server answers 500 *)

Section minimal_listing.
Context `{!Runtime}.

Lemma minimal_get_cases (p : path) (line msg : string) w :
  match (items ← Minimal.loadData p; mret (Response 200 (Records items))) w with
  | (w', inr resp) =>
      try_catch (items ← Full.loadData p; mret (Response 200 (Records items)))
        (fun err => console_error line err;; mret (Response 500 (Error msg))) w
      = (w', inr resp)
  | (w', inl e) =>
      w' = w ∧
      try_catch (items ← Full.loadData p; mret (Response 200 (Records items)))
        (fun err => console_error line err;; mret (Response 500 (Error msg))) w
      = ({| fs := fs w; denied := denied w; clock := clock w; ticks := ticks w;
            console := console w ++ [LogError line e] |},
         inr (Response 500 (Error msg)))
  end.
Proof.
  change (Minimal.loadData p) with (Full.loadData p).
  destruct (loadData_cases p w) as [(l & E & _)|[[E _]|(e & E & _)]].
  - erewrite bind_ok by exact E. simpl.
    apply try_catch_ok. by erewrite bind_ok by exact E.
  - erewrite bind_ok by exact E. simpl.
    apply try_catch_ok. by erewrite bind_ok by exact E.
  - erewrite bind_throw by exact E. split; [done|].
    erewrite try_catch_throw by (by apply bind_throw). done.
Qed.

(** X4. The listings of the minimal server have no [try]/[catch]: where
    the storage works they answer exactly what the full server answers, in
    the same world; where it fails they raise what the storage raised,
    answer nothing and log nothing, and the full server answers 500 and logs
    that error. *)
Theorem minimal_listing_raises_where_full_answers_500 w :
  match Minimal.get_posts w with
  | (w', inr resp) => Full.get_posts w = (w', inr resp)
  | (w', inl e) =>
      w' = w ∧
      Full.get_posts w =
        ({| fs := fs w; denied := denied w; clock := clock w; ticks := ticks w;
            console := console w ++ [LogError "❌ Error reading posts:" e] |},
         inr (Response 500 (Error "Failed to read posts")))
  end ∧
  match Minimal.get_projects w with
  | (w', inr resp) => Full.get_projects w = (w', inr resp)
  | (w', inl e) =>
      w' = w ∧
      Full.get_projects w =
        ({| fs := fs w; denied := denied w; clock := clock w; ticks := ticks w;
            console := console w ++ [LogError "❌ Error reading projects:" e] |},
         inr (Response 500 (Error "Failed to read projects")))
  end.
Proof.
  split.
  - apply (minimal_get_cases Full.POSTS_FILE).
  - apply (minimal_get_cases Full.PROJECTS_FILE).
Qed.

End minimal_listing.

(** ** A create that goes well, whatever the media *)

Section create_stores.
Context `{!Runtime}.
Import Full.


End create_stores.

(** ** A create with an uploaded file *)



Section create_with_file.
Context `{!Runtime}.
Import Full.






End create_with_file.

Section create_with_file_examples.
#[local] Existing Instance demo_runtime.


End create_with_file_examples.
